(** * create_datasets.py: the dataset importer, embedded and verified

    The script reads tables from several providers, reshapes each one a
    little and writes it under a fixed key of one HDF5 store.  This file
    embeds the script's tabular steps as Rocq functions and proves the
    properties its description states about them.

    Modelling choices, valid for the whole file:
    - a pandas float is an exact rational ([Qc]) or NaN ([None]); binary64
      rounding, overflow and the infinities are not modelled;
    - a Python [str] is a [string], one [ascii] per character;
    - a timestamp is a day number, day [0] being Thursday 1970-01-01;
    - a raised Python exception is the [Raise] outcome; the store keeps what
      was written before the exception;
    - a table fetched from a file or from the network is an input of the
      model, so a fetch that fails is outside it. *)

From Stdlib Require Import ZArith QArith Qcanon String Ascii Bool.
From stdpp Require Import base option list list_numbers strings gmap sorting.

Local Open Scope string_scope.
Local Open Scope Z_scope.

(** ** Exceptions *)

Inductive exn : Type :=
| ValueError (msg : string)
| KeyError (msg : string)
| AttributeError (msg : string).

Inductive outcome (A : Type) : Type :=
| Ok (a : A)
| Raise (e : exn).
Arguments Ok {A} a.
Arguments Raise {A} e.

#[global] Instance outcome_ret : MRet outcome := fun A a => Ok a.
#[global] Instance outcome_bind : MBind outcome := fun A B f m =>
  match m with
  | Ok a => f a
  | Raise e => Raise e
  end.
#[global] Instance outcome_fmap : FMap outcome := fun A B f m =>
  match m with
  | Ok a => Ok (f a)
  | Raise e => Raise e
  end.

Definition raises {A} (m : outcome A) : Prop :=
  match m with
  | Ok _ => False
  | Raise _ => True
  end.

(** ** Python string operations used through the [.str] accessor *)

(** [x[i]] when [-len(x) <= i < len(x)], NaN otherwise: [Series.str[i]]. *)
Definition str_get (i : Z) (x : string) : option string :=
  let n := Z.of_nat (String.length x) in
  if (- n <=? i) && (i <? n) then
    match String.get (Z.to_nat (if i <? 0 then i + n else i)) x with
    | Some c => Some (String c EmptyString)
    | None => None
    end
  else None.

(** A slice bound brought into [0 .. n] the way Python does. *)
Definition slice_bound (i n : Z) : Z :=
  if i <? 0 then Z.max 0 (i + n) else Z.min i n.

(** [x[start:stop]]: [Series.str[start:stop]]. *)
Definition str_slice (start stop : Z) (x : string) : string :=
  let n := Z.of_nat (String.length x) in
  let lo := slice_bound start n in
  let hi := slice_bound stop n in
  String.substring (Z.to_nat lo) (Z.to_nat (hi - lo)) x.

(** [x.endswith(suf)] for one suffix, and for a tuple of suffixes. *)
Definition endswith (suf x : string) : bool :=
  let n := String.length x in
  let k := String.length suf in
  (k <=? n)%nat && String.eqb (String.substring (n - k) k x) suf.

Definition endswith_any (sufs : list string) (x : string) : bool :=
  existsb (fun suf => endswith suf x) sufs.

(** ** Floats and [pd.to_numeric] *)

(** [None] is NaN. *)
Definition float : Type := option Qc.

Definition fmul (x : float) (factor : Qc) : float :=
  (fun q => (q * factor)%Qc) <$> x.

(** A decimal literal: optional sign, digits, optional fraction, optional
    exponent; at least one digit in the mantissa.  It is the conversion
    used for the examples; the theorems hold for any conversion. *)
Definition digit_of (c : ascii) : option Z :=
  let n := Z.of_N (N_of_ascii c) in
  if (48 <=? n) && (n <=? 57) then Some (n - 48) else None.

(** Reads a run of digits: accumulated value, number of digits, rest. *)
Fixpoint read_digits (acc : Z) (count : nat) (s : string) : Z * nat * string :=
  match s with
  | EmptyString => (acc, count, s)
  | String c s' =>
      match digit_of c with
      | Some d => read_digits (10 * acc + d) (S count) s'
      | None => (acc, count, s)
      end
  end.

Definition read_sign (s : string) : bool * string :=
  match s with
  | String "-" s' => (true, s')
  | String "+" s' => (false, s')
  | _ => (false, s)
  end.

Definition pow10 (e : Z) : Qc :=
  if 0 <=? e then Q2Qc (inject_Z (10 ^ e))
  else Q2Qc (1 # Z.to_pos (10 ^ (- e))).

Definition read_exponent (s : string) : option Z :=
  match s with
  | EmptyString => Some 0
  | String c s' =>
      if (Ascii.eqb c "e" || Ascii.eqb c "E")%bool then
        let '(neg, s1) := read_sign s' in
        let '(e, k, rest) := read_digits 0 0 s1 in
        match k, rest with
        | S _, EmptyString => Some (if neg then - e else e)
        | _, _ => None
        end
      else None
  end.

Definition parse_decimal (s : string) : option float :=
  let '(neg, s1) := read_sign s in
  let '(ip, ni, s2) := read_digits 0 0 s1 in
  let '(m, nf, s3) :=
    match s2 with
    | String "." s' =>
        let '(m, nf, rest) := read_digits ip 0 s' in (m, nf, rest)
    | _ => (ip, 0%nat, s2)
    end in
  match (ni + nf)%nat with
  | O => None
  | S _ =>
      e ← read_exponent s3;
      let q := (Q2Qc (inject_Z m) * pow10 (e - Z.of_nat nf))%Qc in
      Some (Some (if neg then (- q)%Qc else q))
  end.

Section ToNumeric.
(** The library's conversion of one non-empty string: [None] when it
    cannot parse it. *)
Variable floatify : string -> option float.

(** One element of [pd.to_numeric(col)] with the default
    [errors='raise']: an empty string converts to NaN, any other string
    goes through the conversion, which raises when it fails. *)
Definition to_numeric_str (s : string) : outcome float :=
  if String.eqb s "" then Ok None
  else match floatify s with
       | Some v => Ok v
       | None => Raise (ValueError "Unable to parse string")
       end.

Definition to_numeric (col : list string) : outcome (list float) :=
  mapM to_numeric_str col.
End ToNumeric.

(** ** Boolean masks and duplicated labels *)

(** [df[mask]] for a boolean mask as long as the table. *)
Fixpoint mask_rows {A} (rows : list A) (mask : list bool) : list A :=
  match rows, mask with
  | r :: rows', b :: mask' =>
      if b then r :: mask_rows rows' mask' else mask_rows rows' mask'
  | _, _ => []
  end.

(** [Index.duplicated()], default [keep='first']: a label is marked when it
    already occurred at an earlier position. *)
Fixpoint duplicated_from (seen : gset string) (labels : list string) : list bool :=
  match labels with
  | [] => []
  | k :: ks => bool_decide (k ∈ seen) :: duplicated_from ({[k]} ∪ seen) ks
  end.

Definition duplicated (labels : list string) : list bool :=
  duplicated_from ∅ labels.

(** ** The exchange listing and its market capitalisation column *)

Inductive cell : Type :=
| NaN
| Str (s : string)
| Num (q : Qc).

(** A row of the listing after line 178: indexed by [symbol], with the
    [marketcap] column ([None] is a missing value) and the other columns. *)
Record listing_row (A : Type) : Type := {
  symbol : string;
  marketcap : option A;
  other : list cell
}.
Arguments symbol {A} _.
Arguments marketcap {A} _.
Arguments other {A} _.

(** Line 179: [df = df[~df.index.duplicated()]]. *)
Definition drop_duplicated {A} (df : list (listing_row A)) : list (listing_row A) :=
  mask_rows df (negb <$> duplicated (symbol <$> df)).

(** A row of the working table [mcap]. *)
Record mcap_row (A : Type) : Type := {
  m_symbol : string;
  m_marketcap : A;
  m_suffix : option string
}.
Arguments m_symbol {A} _.
Arguments m_marketcap {A} _.
Arguments m_suffix {A} _.

(** Line 196: [mcap = df[['marketcap']].dropna()]. *)
Definition select_marketcap (df : list (listing_row string)) : list (string * string) :=
  omap (fun r => pair (symbol r) <$> marketcap r) df.

(** Line 197: [mcap['suffix'] = mcap.marketcap.str[-1]]. *)
Definition add_suffix (t : list (string * string)) : list (mcap_row string) :=
  (fun kv => {| m_symbol := kv.1; m_marketcap := kv.2;
                m_suffix := str_get (-1) kv.2 |}) <$> t.

(** Line 206: [mcap.suffix.str.endswith(('B', 'M'))] is NaN where the suffix
    is, and a mask with a NaN in it is refused. *)
Definition suffix_mask (t : list (mcap_row string)) : list (option bool) :=
  (fun r => endswith_any ["B"; "M"] <$> m_suffix r) <$> t.

Definition check_mask (mask : list (option bool)) : outcome (list bool) :=
  mapM (fun b =>
          match b with
          | Some b => Ok b
          | None => Raise (ValueError "Cannot mask with non-boolean array containing NA / NaN values")
          end) mask.

Definition keep_units (t : list (mcap_row string)) : outcome (list (mcap_row string)) :=
  mask ← check_mask (suffix_mask t);
  Ok (mask_rows t mask).

(** Line 208: [mcaps = {'M': 1e6, 'B': 1e9}], in insertion order. *)
Definition mcaps : list (string * Qc) :=
  [("M", Q2Qc (inject_Z (10 ^ 6))); ("B", Q2Qc (inject_Z (10 ^ 9)))].

(** Line 210: [mcap.loc[mcap.suffix == symbol, 'marketcap'] *= factor]. *)
Definition scale_row (sfx : string) (factor : Qc) (r : mcap_row float) : mcap_row float :=
  if bool_decide (m_suffix r = Some sfx)
  then {| m_symbol := m_symbol r;
          m_marketcap := fmul (m_marketcap r) factor;
          m_suffix := m_suffix r |}
  else r.

Definition scale_where (sfx : string) (factor : Qc) (t : list (mcap_row float))
  : list (mcap_row float) :=
  scale_row sfx factor <$> t.

(** Lines 209-210: the loop over [mcaps.items()]. *)
Definition apply_factors (t : list (mcap_row float)) : list (mcap_row float) :=
  foldl (fun acc sf => scale_where sf.1 sf.2 acc) t mcaps.

(** The label lookup of a series: the value at the first row with the label. *)
Definition series_get {A} (k : string) (t : list (mcap_row A)) : option A :=
  m_marketcap <$> head (filter (fun r => m_symbol r = k) t).

(** Line 217: [df['marketcap'] = mcap.marketcap], aligned on the index; a
    label of [df] that [mcap] lacks gets NaN. *)
Definition assign_marketcap (df : list (listing_row string)) (mcap : list (mcap_row float))
  : list (listing_row Qc) :=
  (fun r => {| symbol := symbol r;
               marketcap := mjoin (series_get (symbol r) mcap);
               other := other r |}) <$> df.

(** Line 218: [describe()] has a NaN entry (the standard deviation, and with
    no value at all the mean) unless two values are present, and [int(x)]
    of a NaN raises. *)
Definition describe_marketcap (df : list (listing_row Qc)) : outcome unit :=
  if (length (omap marketcap df) <? 2)%nat
  then Raise (ValueError "cannot convert float NaN to integer")
  else Ok tt.

Section MarketCap.
Variable floatify : string -> option float.

(** Line 207: [mcap.marketcap = pd.to_numeric(mcap.marketcap.str[1:-1])]. *)
Definition convert_marketcap (t : list (mcap_row string)) : outcome (list (mcap_row float)) :=
  vals ← to_numeric floatify ((fun r => str_slice 1 (-1) (m_marketcap r)) <$> t);
  Ok (zip_with (fun r v => {| m_symbol := m_symbol r; m_marketcap := v;
                              m_suffix := m_suffix r |}) t vals).

(** Lines 196-210: the table [mcap] of normalized values. *)
Definition normalize_marketcap (df : list (listing_row string))
  : outcome (list (mcap_row float)) :=
  let mcap := add_suffix (select_marketcap df) in
  mcap ← keep_units mcap;
  mcap ← convert_marketcap mcap;
  Ok (apply_factors mcap).

(** Lines 179-218 on the listing [df] of line 178. *)
Definition us_listing (df : list (listing_row string)) : outcome (list (listing_row Qc)) :=
  let df := drop_duplicated df in
  mcap ← normalize_marketcap df;
  let df := assign_marketcap df mcap in
  _ ← describe_marketcap df;
  Ok df.
End MarketCap.

(** ** Tables with named columns *)

(** A table as [read_csv] and [read_html] return it: column names and rows
    of cells, under the default positional index. *)
Record flat_frame : Type := {
  f_columns : list string;
  f_rows : list (list cell)
}.

(** A table whose rows carry an index label of type [I]. *)
Record frame (I : Type) : Type := {
  columns : list string;
  rows : list (I * list cell)
}.
Arguments columns {I} _.
Arguments rows {I} _.

Definition column_position (c : string) (cols : list string) : option nat :=
  fst <$> list_find (fun x => x = c) cols.

(** [df.columns = names]. *)
Definition set_columns (names : list string) (df : flat_frame) : outcome flat_frame :=
  if (length names =? length (f_columns df))%nat
  then Ok {| f_columns := names; f_rows := f_rows df |}
  else Raise (ValueError "Length mismatch").

(** [df.drop(c, axis=1)]. *)
Definition drop_column (c : string) (df : flat_frame) : outcome flat_frame :=
  match column_position c (f_columns df) with
  | None => Raise (KeyError c)
  | Some i => Ok {| f_columns := delete i (f_columns df);
                    f_rows := delete i <$> f_rows df |}
  end.

(** [df.set_index(c)]: the column becomes the index and leaves the columns. *)
Definition set_index (c : string) (df : flat_frame) : outcome (frame cell) :=
  match column_position c (f_columns df) with
  | None => Raise (KeyError c)
  | Some i => Ok {| columns := delete i (f_columns df);
                    rows := (fun r => (default NaN (r !! i), delete i r)) <$> f_rows df |}
  end.

(** ** Quandl wiki prices (lines 58-62) *)

(** The order of the compound index: by date, then by ticker. *)
Definition key_le (k1 k2 : Z * string) : Prop :=
  k1.1 < k2.1 ∨ (k1.1 = k2.1 ∧ String.le k1.2 k2.2).

Definition row_le (r1 r2 : (Z * string) * list cell) : Prop :=
  key_le r1.1 r2.1.

#[global] Instance key_le_dec k1 k2 : Decision (key_le k1 k2).
Proof. unfold key_le. apply _. Defined.

#[global] Instance row_le_dec r1 r2 : Decision (row_le r1 r2).
Proof. unfold row_le. apply _. Defined.

(** [.sort_index()] on the table indexed by (date, ticker). *)
Definition sort_index (df : frame (Z * string)) : frame (Z * string) :=
  {| columns := columns df; rows := merge_sort row_le (rows df) |}.

(** ** S&P 500 (lines 101, 133-148) *)

(** A table of float columns indexed by date. *)
Record ts_frame : Type := {
  ts_columns : list string;
  ts_rows : list (Z * list float)
}.

(** [.squeeze().to_frame('close')] on the one-column table of the SP500
    series: a single row squeezes to a scalar, which has no [to_frame]. *)
Definition sp500_close (s : list (Z * float)) : outcome ts_frame :=
  if (length s =? 1)%nat
  then Raise (AttributeError "to_frame")
  else Ok {| ts_columns := ["close"];
             ts_rows := (fun dv => (dv.1, [dv.2])) <$> s |}.

Definition sp500_names : list string :=
  ["ticker"; "name"; "sec_filings"; "gics_sector"; "gics_sub_industry";
   "location"; "first_added"; "cik"; "founded"].

Definition sp500_constituents (df : flat_frame) : outcome (frame cell) :=
  df ← set_columns sp500_names df;
  df ← drop_column "sec_filings" df;
  set_index "ticker" df.

(** ** Bond price indexes (lines 337-345) *)

Definition securities : gmap string string :=
  list_to_map
    [("BAMLCC0A0CMTRIV", "US Corp Master TRI");
     ("BAMLHYH0A0HYM2TRIV", "US High Yield TRI");
     ("BAMLEMCBPITRIV", "Emerging Markets Corporate Plus TRI");
     ("GOLDAMGBD228NLBM", "Gold (London, USD)");
     ("DGS10", "10-Year Treasury CMR")].

(** [df.rename(columns=names)]: a column the dictionary lacks keeps its name. *)
Definition rename_columns (names : gmap string string) (df : ts_frame) : ts_frame :=
  {| ts_columns := (fun c => default c (names !! c)) <$> ts_columns df;
     ts_rows := ts_rows df |}.

(** [df.dropna(how='all')]: a row stays when one of its values is present. *)
Definition dropna_all (df : ts_frame) : ts_frame :=
  {| ts_columns := ts_columns df;
     ts_rows := filter (fun r => Exists is_Some r.2) (ts_rows df) |}.

(** Monday is 0 and Sunday 6, as [Timestamp.weekday()]. *)
Definition weekday (d : Z) : Z := (d + 3) `mod` 7.

Definition is_bday (d : Z) : bool := weekday d <? 5.

(** [BDay().rollback(d)]: [d] itself on a business day, else the Friday
    before. *)
Definition rollback (d : Z) : Z :=
  if is_bday d then d else d - (weekday d - 4).

(** The business days from [lo] to [hi], both included. *)
Definition bdate_range (lo hi : Z) : list Z :=
  filter (fun d => is_bday d = true) (seqZ lo (hi - lo + 1)).

Definition qsum (xs : list Qc) : Qc := foldr Qcplus (Q2Qc 0) xs.

(** [mean()] skips NaN and is NaN when nothing is left. *)
Definition nanmean (vs : list float) : float :=
  match omap id vs with
  | [] => None
  | x :: xs => Some (qsum (x :: xs) / Q2Qc (inject_Z (Z.of_nat (length (x :: xs)))))%Qc
  end.

Definition column_at (j : nat) (t : list (Z * list float)) : list float :=
  (fun r => mjoin (r.2 !! j)) <$> t.

(** The rows that fall into the bin labelled [b]: bins are closed and
    labelled on the left and run to the next business day, so Saturday and
    Sunday belong to Friday's bin. *)
Definition bin_rows (b : Z) (t : list (Z * list float)) : list (Z * list float) :=
  filter (fun r => rollback r.1 = b) t.

Definition bin_mean (ncols : nat) (t : list (Z * list float)) (b : Z) : list float :=
  (fun j => nanmean (column_at j (bin_rows b t))) <$> seq 0 ncols.

(** [df.resample('B').mean()]: one bin per business day from the first
    timestamp, rolled back, to the last one, rolled back. *)
Definition resample_B_mean (df : ts_frame) : ts_frame :=
  {| ts_columns := ts_columns df;
     ts_rows :=
       match ts_rows df with
       | [] => []
       | r :: t =>
           let first := rollback (foldr Z.min r.1 (fst <$> t)) in
           let last := rollback (foldr Z.max r.1 (fst <$> t)) in
           (fun b => (b, bin_mean (length (ts_columns df)) (ts_rows df) b))
             <$> bdate_range first last
       end |}.

(** Line 345. *)
Definition fred_assets (df : ts_frame) : ts_frame :=
  resample_B_mean (dropna_all (rename_columns securities df)).

(** ** The store and the script *)

Inductive payload : Type :=
| PriceTable (t : frame (Z * string))
| FlatTable (t : flat_frame)
| LabelTable (t : frame cell)
| DateTable (t : ts_frame).

Abbreviation store := (gmap string payload).

(** [store.put(key, value)] with the default fixed format: the node of the
    key is removed if there is one, then written. *)
Definition put (key : string) (value : payload) (st : store) : store :=
  <[key := value]> (delete key st).

(** [store[key]]. *)
Definition store_get (key : string) (st : store) : option payload := st !! key.

(** The tables the script reads. *)
Record inputs : Type := {
  wiki_prices_csv : frame (Z * string);
  wiki_stocks_csv : flat_frame;
  fred_sp500 : list (Z * float);
  wikipedia_sp500 : flat_frame;
  nasdaq_listing : list (listing_row string);
  us_equities_meta_data_csv : flat_frame;
  fred_securities : ts_frame
}.

(** A command of the script: it changes the store and returns or raises. *)
Definition cmd (A : Type) : Type := store -> store * outcome A.

#[global] Instance cmd_ret : MRet cmd := fun A a st => (st, Ok a).
#[global] Instance cmd_bind : MBind cmd := fun A B f m st =>
  match m st with
  | (st', Ok a) => f a st'
  | (st', Raise e) => (st', Raise e)
  end.

Definition lift {A} (m : outcome A) : cmd A := fun st => (st, m).

Definition store_put (key : string) (value : payload) : cmd unit :=
  fun st => (put key value st, Ok tt).

Section Script.
Variable floatify : string -> option float.

(** The script, cell by cell; [df] is rebound as the script rebinds it.
    Lines 248-327 save the image arrays to files of their own and leave the
    store alone. *)
Definition script (inp : inputs) : cmd unit :=
  let df := sort_index (wiki_prices_csv inp) in
  _ ← store_put "quandl/wiki/prices" (PriceTable df);
  let df := wiki_stocks_csv inp in
  _ ← store_put "quandl/wiki/stocks" (FlatTable df);
  df ← lift (sp500_close (fred_sp500 inp));
  _ ← store_put "sp500/fred" (DateTable df);
  df ← lift (sp500_constituents (wikipedia_sp500 inp));
  _ ← store_put "sp500/stocks" (LabelTable df);
  df ← lift (us_listing floatify (nasdaq_listing inp));
  let df := us_equities_meta_data_csv inp in
  df ← lift (set_index "ticker" df);
  _ ← store_put "us_equities/stocks" (LabelTable df);
  let df := fred_assets (fred_securities inp) in
  store_put "fred/assets" (DateTable df).
End Script.

#[global] Instance cell_eq_dec : EqDecision cell.
Proof. solve_decision. Defined.

(** [df.loc[label, col]]: the cell of the first row with the label, [None]
    when the label or the column is missing. *)
Definition frame_at (label : cell) (col : string) (df : frame cell) : option cell :=
  r ← head (filter (fun r => r.1 = label) (rows df));
  i ← column_position col (columns df);
  r.2 !! i.

(** ** Example inputs *)

Definition listing (sym : string) (mc : option string) : listing_row string :=
  {| symbol := sym; marketcap := mc; other := [] |}.

Definition ex_listing : list (listing_row string) :=
  [listing "AAA" (Some "$2.1B"); listing "BBB" (Some "$900M");
   listing "CCC" (Some "$50K"); listing "AAA" (Some "$7M"); listing "DDD" None].

(** A listing of three rows with market capitalisations $2.1B, $900M, $50K. *)
Definition ex_listing3 : list (listing_row string) :=
  [listing "AAA" (Some "$2.1B"); listing "BBB" (Some "$900M");
   listing "CCC" (Some "$50K")].


Definition ex_listing_unparseable : list (listing_row string) :=
  [listing "AAA" (Some "$2.1B"); listing "BBB" (Some "$n/aB")].

Definition ex_inputs : inputs :=
  {| wiki_prices_csv :=
       {| columns := ["close"];
          rows := [((3, "B"), [NaN]); ((1, "Z"), [NaN]); ((3, "A"), [NaN])] |};
     wiki_stocks_csv := {| f_columns := ["code"; "name"]; f_rows := [] |};
     fred_sp500 := [];
     wikipedia_sp500 :=
       {| f_columns := ["Symbol"; "Security"; "SEC filings"; "GICS Sector";
                        "GICS Sub-Industry"; "Headquarters Location";
                        "Date first added"; "CIK"; "Founded"];
          f_rows := [] |};
     nasdaq_listing := ex_listing;
     us_equities_meta_data_csv :=
       {| f_columns := ["ticker"; "marketcap"];
          f_rows := [[Str "AAA"; Num (Q2Qc (inject_Z 7))]] |};
     fred_securities := {| ts_columns := ["DGS10"]; ts_rows := [] |} |}.

(** Two series from Monday 1970-01-05 (day 4) to Wednesday (day 6); both
    are missing on the Tuesday. *)
Definition ex_fred : ts_frame :=
  {| ts_columns := ["DGS10"; "GOLDAMGBD228NLBM"];
     ts_rows := [(4, [Some (Q2Qc (inject_Z 1)); Some (Q2Qc (inject_Z 2))]);
                 (5, [None; None]);
                 (6, [Some (Q2Qc (inject_Z 3)); None])] |}.


(** Two series on Monday 1970-01-05 and Tuesday 1970-01-06, one row a day. *)
Definition ex_fred_daily : ts_frame :=
  {| ts_columns := ["DGS10"; "GOLDAMGBD228NLBM"];
     ts_rows := [(4, [Some (Q2Qc (inject_Z 1)); None]);
                 (5, [Some (Q2Qc (inject_Z 3)); Some (Q2Qc (inject_Z 2))])] |}.

(** A store that already holds a table under a key of its own. *)
Definition ex_store : store :=
  {[ "sp500/stooq" := FlatTable {| f_columns := ["close"]; f_rows := [] |} ]}.

(** A metadata table of three columns. *)
Definition ex_meta : flat_frame :=
  {| f_columns := ["name"; "ticker"; "sector"];
     f_rows := [[Str "Alpha"; Str "AAA"; Str "Tech"];
                [Str "Beta"; Str "BBB"; NaN];
                [Str "Alpha bis"; Str "AAA"; Str "Energy"]] |}.

(** The example inputs with a listing that holds an unparseable value. *)
Definition ex_inputs_unparseable : inputs :=
  {| wiki_prices_csv := wiki_prices_csv ex_inputs;
     wiki_stocks_csv := wiki_stocks_csv ex_inputs;
     fred_sp500 := fred_sp500 ex_inputs;
     wikipedia_sp500 := wikipedia_sp500 ex_inputs;
     nasdaq_listing := ex_listing_unparseable;
     us_equities_meta_data_csv := us_equities_meta_data_csv ex_inputs;
     fred_securities := fred_securities ex_inputs |}.

(** The example price table with its first two rows exchanged. *)
Definition ex_prices_swapped : frame (Z * string) :=
  {| columns := ["close"];
     rows := [((1, "Z"), [NaN]); ((3, "B"), [NaN]); ((3, "A"), [NaN])] |}.

(** A listing with a missing value and one with an empty string. *)
Definition ex_listing_missing : list (listing_row string) :=
  [listing "AAA" (Some "$2.1B"); listing "DDD" None].

Definition ex_listing_empty : list (listing_row string) :=
  [listing "AAA" (Some "$2.1B"); listing "EEE" (Some "")].

(** Two series without any value. *)
Definition ex_fred_no_values : ts_frame :=
  {| ts_columns := ["DGS10"; "GOLDAMGBD228NLBM"];
     ts_rows := [(4, [None; None]); (5, [None; None])] |}.

(** * Properties *)

(** ** Strings *)

Lemma length_app_string (s1 s2 : string) :
  String.length (s1 ++ s2) = (String.length s1 + String.length s2)%nat.
Proof. induction s1 as [|a s1 IH]; simpl; [done|]. by rewrite IH. Qed.

Lemma get_app_end (s : string) (c : ascii) :
  String.get (String.length s) (s ++ String c "") = Some c.
Proof. induction s as [|a s IH]; simpl; done. Qed.


(** The last character of a string that ends with [c]. *)
Lemma str_get_last (s : string) (c : ascii) :
  str_get (-1) (s ++ String c "") = Some (String c "").
Proof.
  unfold str_get. rewrite length_app_string. simpl.
  set (n := Z.of_nat (String.length s + 1)).
  assert (Hn : n = Z.of_nat (String.length s) + 1) by lia.
  assert (H1 : (- n <=? -1) = true) by (apply Z.leb_le; lia).
  assert (H2 : (-1 <? n) = true) by (apply Z.ltb_lt; lia).
  rewrite H1, H2. simpl.
  replace (Z.to_nat (-1 + n)) with (String.length s) by lia.
  by rewrite get_app_end.
Qed.


Lemma endswith_any_one (c : ascii) :
  endswith_any ["B"; "M"] (String c "") = true ↔ c = "B"%char ∨ c = "M"%char.
Proof.
  unfold endswith_any, endswith. simpl.
  destruct (Ascii.eqb_spec c "B"), (Ascii.eqb_spec c "M"); simpl;
    intuition congruence.
Qed.

(** ** Duplicated labels and masks *)

Lemma sublist_lookup_pair {A} (l1 l2 : list A) (i j : nat) (a b : A) :
  l1 `sublist_of` l2 → (i < j)%nat →
  l1 !! i = Some a → l1 !! j = Some b →
  ∃ i' j', (i' < j')%nat ∧ l2 !! i' = Some a ∧ l2 !! j' = Some b.
Proof.
  intros Hsub. revert i j.
  induction Hsub as [|x l1 l2 Hsub IH|x l1 l2 Hsub IH]; intros i j Hij Hi Hj.
  - done.
  - destruct j as [|j]; [lia|]. destruct i as [|i]; simpl in *.
    + injection Hi as ->.
      assert (Hb : b ∈ l2).
      { eapply elem_of_sublist; [|done]. by eapply list_elem_of_lookup_2. }
      apply list_elem_of_lookup in Hb as [j' Hj'].
      exists 0%nat, (S j'). split; [lia|done].
    + destruct (IH i j) as (i' & j' & ? & ? & ?); [lia|done|done|].
      exists (S i'), (S j'). split; [lia|done].
  - destruct (IH i j) as (i' & j' & ? & ? & ?); [done..|].
    exists (S i'), (S j'). split; [lia|done].
Qed.

Section Dedup.
Context {A : Type}.
Implicit Types (df : list (listing_row A)) (seen : gset string).

Local Abbreviation dedup_from seen df :=
  (mask_rows df (negb <$> duplicated_from seen (symbol <$> df))).

Lemma dedup_from_cons seen r df :
  dedup_from seen (r :: df) =
    if decide (symbol r ∈ seen) then dedup_from ({[symbol r]} ∪ seen) df
    else r :: dedup_from ({[symbol r]} ∪ seen) df.
Proof. simpl. by case_decide; case_bool_decide. Qed.

Lemma dedup_from_sublist seen df : dedup_from seen df `sublist_of` df.
Proof.
  revert seen. induction df as [|r df IH]; intros seen.
  - constructor.
  - rewrite dedup_from_cons. case_decide; by constructor.
Qed.

Lemma dedup_from_not_seen seen df r :
  r ∈ dedup_from seen df → symbol r ∉ seen.
Proof.
  revert seen. induction df as [|r' df IH]; intros seen.
  - by intros ?%elem_of_nil.
  - rewrite dedup_from_cons. case_decide as Hin.
    + intros Hr%IH. set_solver.
    + intros [->|Hr%IH]%elem_of_cons; set_solver.
Qed.

Lemma dedup_from_NoDup seen df : NoDup (symbol <$> dedup_from seen df).
Proof.
  revert seen. induction df as [|r df IH]; intros seen.
  - constructor.
  - rewrite dedup_from_cons. case_decide; [done|].
    rewrite fmap_cons. apply NoDup_cons. split; [|done].
    intros (r' & Heq & Hr')%list_elem_of_fmap.
    apply dedup_from_not_seen in Hr'. set_solver.
Qed.

Lemma dedup_from_filter seen df k :
  filter (fun r => symbol r = k) (dedup_from seen df) =
    if decide (k ∈ seen) then []
    else option_list (head (filter (fun r => symbol r = k) df)).
Proof.
  revert seen. induction df as [|r df IH]; intros seen.
  - by case_decide.
  - rewrite dedup_from_cons, (filter_cons _ r df).
    destruct (decide (symbol r ∈ seen)) as [Hr|Hr].
    + rewrite IH. destruct (decide (k ∈ seen)) as [Hk|Hk].
      * rewrite decide_True by set_solver. done.
      * assert (symbol r ≠ k) by set_solver.
        rewrite decide_False by set_solver. by rewrite decide_False.
    + rewrite filter_cons, IH. destruct (decide (symbol r = k)) as [<-|Hne].
      * rewrite decide_True by set_solver. by rewrite decide_False.
      * destruct (decide (k ∈ seen)) as [Hk|Hk].
        -- by rewrite decide_True by set_solver.
        -- by rewrite decide_False by set_solver.
Qed.
End Dedup.

(** C6: dropping the duplicated labels keeps, for every identifier of the
    table, exactly one row, and that row is the first one of the input
    with the identifier. *)
Theorem drop_duplicated_keeps_first {A} (df : list (listing_row A)) :
  NoDup (symbol <$> drop_duplicated df) ∧
  ∀ k, filter (fun r => symbol r = k) (drop_duplicated df) =
         option_list (head (filter (fun r => symbol r = k) df)).
Proof.
  split.
  - apply dedup_from_NoDup.
  - intros k. unfold drop_duplicated, duplicated.
    rewrite dedup_from_filter. by rewrite decide_False by set_solver.
Qed.

(** C10: dropping the duplicated labels does not reorder: the rows that
    stay are a subsequence of the input, so two rows that stay appear in
    the input in the same relative order. *)
Theorem drop_duplicated_keeps_order {A} (df : list (listing_row A))
    (i j : nat) (r1 r2 : listing_row A) :
  (i < j)%nat →
  drop_duplicated df !! i = Some r1 →
  drop_duplicated df !! j = Some r2 →
  drop_duplicated df `sublist_of` df ∧
  ∃ i' j', (i' < j')%nat ∧ df !! i' = Some r1 ∧ df !! j' = Some r2.
Proof.
  intros Hij Hi Hj.
  assert (Hsub : drop_duplicated df `sublist_of` df) by apply dedup_from_sublist.
  split; [done|]. by eapply sublist_lookup_pair.
Qed.

(** ** The store *)

Lemma put_insert (key : string) (v : payload) (st : store) :
  put key v st = <[key := v]> st.
Proof. unfold put. apply insert_delete_eq. Qed.


(** ** The price table *)

#[global] Instance key_le_total : Total key_le.
Proof.
  intros [d1 t1] [d2 t2]. unfold key_le. simpl.
  destruct (Z.lt_trichotomy d1 d2) as [?|[->|?]]; [by left; left| |by right; left].
  destruct (total String.le t1 t2); [left|right]; by right.
Qed.

#[global] Instance key_le_trans : Transitive key_le.
Proof.
  intros [d1 t1] [d2 t2] [d3 t3]. unfold key_le. simpl.
  intros [?|[-> H12]] [?|[-> H23]]; [left; lia..|].
  right. split; [done|]. by etrans.
Qed.

#[global] Instance row_le_total : Total row_le.
Proof. intros r1 r2. apply (total key_le). Qed.

Lemma sort_index_sorted (df : frame (Z * string)) :
  Sorted key_le (rows (sort_index df)).*1 ∧
  StronglySorted key_le (rows (sort_index df)).*1 ∧
  rows (sort_index df) ≡ₚ rows df ∧
  columns (sort_index df) = columns df.
Proof.
  assert (Hs : Sorted key_le (rows (sort_index df)).*1).
  { apply (Sorted_fmap fst row_le key_le); [done|]. apply (Sorted_merge_sort row_le). }
  split_and!.
  - done.
  - by apply (Sorted_StronglySorted key_le).
  - apply merge_sort_Permutation.
  - done.
Qed.

(** C7: the table found under [quandl/wiki/prices] after the script, however
    the script ends, is the input price table sorted by its (date, ticker)
    index: same columns, same rows, and index keys that never decrease. *)
Theorem wiki_prices_stored_sorted (floatify : string -> option float)
    (inp : inputs) (st : store) :
  ∃ t, store_get "quandl/wiki/prices" (script floatify inp st).1 = Some (PriceTable t) ∧
       columns t = columns (wiki_prices_csv inp) ∧
       rows t ≡ₚ rows (wiki_prices_csv inp) ∧
       Sorted key_le (rows t).*1 ∧
       StronglySorted key_le (rows t).*1.
Proof.
  exists (sort_index (wiki_prices_csv inp)).
  destruct (sort_index_sorted (wiki_prices_csv inp)) as (? & ? & ? & ?).
  split_and!; try done.
  unfold script, store_get, mbind, cmd_bind, store_put, lift. simpl.
  repeat case_match; simplify_eq/=; rewrite !put_insert;
    by repeat (rewrite lookup_insert_ne by done); rewrite lookup_insert_eq.
Qed.

(** ** The market capitalisation column *)

Lemma apply_factors_fmap (t : list (mcap_row float)) :
  apply_factors t =
    (fun r => scale_row "B" (Q2Qc (inject_Z (10 ^ 9)))
                (scale_row "M" (Q2Qc (inject_Z (10 ^ 6))) r)) <$> t.
Proof.
  unfold apply_factors, mcaps, scale_where. simpl.
  by rewrite <- list_fmap_compose.
Qed.

Lemma apply_factors_cons (r : mcap_row float) (t : list (mcap_row float)) :
  apply_factors (r :: t) = (apply_factors [r] ++ apply_factors t)%list.
Proof. by rewrite !apply_factors_fmap. Qed.


Lemma apply_factors_symbols (t : list (mcap_row float)) :
  m_symbol <$> apply_factors t = m_symbol <$> t.
Proof.
  rewrite apply_factors_fmap, <- list_fmap_compose.
  apply list_fmap_ext. intros i r _. unfold scale_row. simpl.
  by repeat case_bool_decide.
Qed.

Lemma series_get_cons {A} (k : string) (r : mcap_row A) (t : list (mcap_row A)) :
  series_get k (r :: t) =
    if decide (m_symbol r = k) then Some (m_marketcap r) else series_get k t.
Proof. unfold series_get. rewrite filter_cons. by case_decide. Qed.

Lemma series_get_None {A} (k : string) (t : list (mcap_row A)) :
  series_get k t = None ↔ k ∉ m_symbol <$> t.
Proof.
  induction t as [|r t IH].
  - split; [intros _; apply not_elem_of_nil|done].
  - rewrite series_get_cons, fmap_cons, not_elem_of_cons.
    case_decide; [naive_solver|]. rewrite IH. naive_solver.
Qed.

Lemma keep_units_cons (r : mcap_row string) (t : list (mcap_row string)) :
  keep_units (r :: t) =
    match m_suffix r with
    | None => Raise (ValueError "Cannot mask with non-boolean array containing NA / NaN values")
    | Some s => k ← keep_units t;
                Ok (if endswith_any ["B"; "M"] s then r :: k else k)
    end.
Proof.
  unfold keep_units, check_mask, suffix_mask. rewrite fmap_cons. simpl.
  destruct (m_suffix r) as [s|]; simpl; [|done].
  unfold mbind, outcome_bind, mret, outcome_ret.
  by destruct (mapM _ _).
Qed.

Section MarketCapFacts.
Variable floatify : string -> option float.

Lemma convert_marketcap_cons (r : mcap_row string) (t : list (mcap_row string)) :
  convert_marketcap floatify (r :: t) =
    x ← to_numeric_str floatify (str_slice 1 (-1) (m_marketcap r));
    c ← convert_marketcap floatify t;
    Ok ({| m_symbol := m_symbol r; m_marketcap := x; m_suffix := m_suffix r |} :: c).
Proof.
  unfold convert_marketcap, to_numeric. rewrite fmap_cons. simpl.
  unfold mbind, outcome_bind, mret, outcome_ret.
  destruct (to_numeric_str _ _); [|done]. by destruct (mapM _ _).
Qed.

Lemma normalize_marketcap_nil : normalize_marketcap floatify [] = Ok [].
Proof. reflexivity. Qed.

Lemma add_suffix_select_cons (r : listing_row string) (v : string)
    (df : list (listing_row string)) :
  marketcap r = Some v →
  add_suffix (select_marketcap (r :: df)) =
    {| m_symbol := symbol r; m_marketcap := v; m_suffix := str_get (-1) v |}
      :: add_suffix (select_marketcap df).
Proof. intros Hr. unfold add_suffix, select_marketcap. simpl. by rewrite Hr. Qed.

Lemma normalize_marketcap_cons_nan (r : listing_row string) (df : list (listing_row string)) :
  marketcap r = None →
  normalize_marketcap floatify (r :: df) = normalize_marketcap floatify df.
Proof.
  intros Hr. unfold normalize_marketcap, select_marketcap. simpl. by rewrite Hr.
Qed.

(** What a successful normalization of [r :: df] says about [r] and [df]. *)
Lemma normalize_marketcap_cons_Ok (r : listing_row string) (v : string)
    (df : list (listing_row string)) (mcap : list (mcap_row float)) :
  marketcap r = Some v →
  normalize_marketcap floatify (r :: df) = Ok mcap →
  ∃ s, str_get (-1) v = Some s ∧
       if endswith_any ["B"; "M"] s
       then ∃ x mcap', to_numeric_str floatify (str_slice 1 (-1) v) = Ok x ∧
                       normalize_marketcap floatify df = Ok mcap' ∧
                       mcap = (apply_factors [{| m_symbol := symbol r; m_marketcap := x;
                                                 m_suffix := Some s |}] ++ mcap')%list
       else normalize_marketcap floatify df = Ok mcap.
Proof.
  intros Hr. unfold normalize_marketcap.
  rewrite (add_suffix_select_cons r v df Hr), keep_units_cons.
  cbn [m_suffix].
  destruct (str_get (-1) v) as [s|]; [|done].
  intros H. exists s. split; [done|]. revert H.
  destruct (keep_units (add_suffix (select_marketcap df))) as [k|e]; [|done].
  destruct (endswith_any ["B"; "M"] s); [|done].
  cbn [mbind outcome_bind]. rewrite convert_marketcap_cons.
  cbn [m_symbol m_marketcap m_suffix].
  destruct (to_numeric_str floatify (str_slice 1 (-1) v)) as [x|e]; [|done].
  destruct (convert_marketcap floatify k) as [c|e]; [|done].
  cbn [mbind outcome_bind].
  intros [= <-]. exists x, (apply_factors c). split_and!; [done..|].
  apply apply_factors_cons.
Qed.

Lemma normalize_marketcap_symbols (df : list (listing_row string))
    (mcap : list (mcap_row float)) :
  normalize_marketcap floatify df = Ok mcap →
  m_symbol <$> mcap ⊆ symbol <$> df.
Proof.
  revert mcap. induction df as [|r df IH]; intros mcap.
  - rewrite normalize_marketcap_nil. by intros [= <-].
  - destruct (marketcap r) as [v|] eqn:Hr.
    + intros (s & _ & H)%(normalize_marketcap_cons_Ok r v); [|done].
      destruct (endswith_any _ s).
      * destruct H as (x & mcap' & _ & Hdf & ->).
        rewrite fmap_app, apply_factors_symbols. simpl.
        apply IH in Hdf. set_solver.
      * apply IH in H. set_solver.
    + rewrite normalize_marketcap_cons_nan by done. intros H%IH. set_solver.
Qed.

(** The entry of a row in the normalized table, whatever the rows around it. *)
Lemma normalize_marketcap_entry (df : list (listing_row string))
    (mcap : list (mcap_row float)) (r : listing_row string) (v : string) :
  NoDup (symbol <$> df) → r ∈ df → marketcap r = Some v →
  normalize_marketcap floatify df = Ok mcap →
  ∃ s, str_get (-1) v = Some s ∧
       if endswith_any ["B"; "M"] s
       then ∃ x, to_numeric_str floatify (str_slice 1 (-1) v) = Ok x ∧
                 head (filter (fun c => m_symbol c = symbol r) mcap) =
                   head (apply_factors [{| m_symbol := symbol r; m_marketcap := x;
                                           m_suffix := Some s |}])
       else series_get (symbol r) mcap = None.
Proof.
  revert mcap. induction df as [|r0 df IH]; intros mcap Hnd Hin Hv Hok.
  - by apply elem_of_nil in Hin.
  - rewrite fmap_cons in Hnd. apply NoDup_cons in Hnd as [Hr0 Hnd].
    apply elem_of_cons in Hin as [->|Hin].
    + destruct (normalize_marketcap_cons_Ok _ _ _ _ Hv Hok) as (s & Hs & H).
      exists s. split; [done|]. destruct (endswith_any _ s).
      * destruct H as (x & mcap' & Hx & Hdf & ->). exists x. split; [done|].
        rewrite apply_factors_fmap. simpl. rewrite filter_cons.
        rewrite decide_True; [done|].
        unfold scale_row; simpl; by repeat case_bool_decide.
      * apply series_get_None. intros Hk.
        apply normalize_marketcap_symbols in H. set_solver.
    + assert (Hne : symbol r0 ≠ symbol r).
      { intros Heq. apply Hr0. rewrite Heq. by apply list_elem_of_fmap_2. }
      assert (Hskip : ∀ mcap', normalize_marketcap floatify df = Ok mcap' →
                ∃ s, str_get (-1) v = Some s ∧
                  if endswith_any ["B"; "M"] s
                  then ∃ x, to_numeric_str floatify (str_slice 1 (-1) v) = Ok x ∧
                         head (filter (fun c => m_symbol c = symbol r) mcap') =
                           head (apply_factors [{| m_symbol := symbol r; m_marketcap := x;
                                                   m_suffix := Some s |}])
                  else series_get (symbol r) mcap' = None) by eauto.
      destruct (marketcap r0) as [v0|] eqn:Hv0.
      * destruct (normalize_marketcap_cons_Ok _ _ _ _ Hv0 Hok) as (s0 & _ & H).
        destruct (endswith_any _ s0); [|by apply Hskip].
        destruct H as (x0 & mcap' & _ & Hdf & ->).
        destruct (Hskip _ Hdf) as (s & Hs & H). exists s. split; [done|].
        assert (Hhd : filter (fun c => m_symbol c = symbol r)
                       (apply_factors [{| m_symbol := symbol r0; m_marketcap := x0;
                                          m_suffix := Some s0 |}] ++ mcap')%list =
                      filter (fun c => m_symbol c = symbol r) mcap').
        { rewrite apply_factors_fmap. simpl. rewrite filter_cons.
          rewrite decide_False; [done|].
          unfold scale_row; simpl; by repeat case_bool_decide. }
        destruct (endswith_any _ s).
        -- destruct H as (x & Hx & H). exists x. split; [done|]. by rewrite Hhd.
        -- unfold series_get in *. by rewrite Hhd.
      * rewrite normalize_marketcap_cons_nan in Hok by done. by apply Hskip.
Qed.
End MarketCapFacts.

Section MarketCapRows.
Variable floatify : string -> option float.


Lemma normalize_marketcap_cons_skip (r : listing_row string) (v s : string)
    (df : list (listing_row string)) :
  marketcap r = Some v → str_get (-1) v = Some s →
  endswith_any ["B"; "M"] s = false →
  normalize_marketcap floatify (r :: df) = normalize_marketcap floatify df.
Proof.
  intros Hr Hs He. unfold normalize_marketcap.
  rewrite (add_suffix_select_cons r v df Hr), keep_units_cons.
  cbn [m_suffix]. rewrite Hs, He.
  by destruct (keep_units (add_suffix (select_marketcap df))).
Qed.

(** A row with a value is converted whenever the normalization returns. *)
Lemma normalize_marketcap_row_Ok (df : list (listing_row string))
    (mcap : list (mcap_row float)) (r : listing_row string) (v : string) :
  r ∈ df → marketcap r = Some v →
  normalize_marketcap floatify df = Ok mcap →
  ∃ s, str_get (-1) v = Some s ∧
       (endswith_any ["B"; "M"] s = true →
        ∃ x, to_numeric_str floatify (str_slice 1 (-1) v) = Ok x).
Proof.
  revert mcap. induction df as [|r0 df IH]; intros mcap Hin Hv Hok.
  - by apply elem_of_nil in Hin.
  - apply elem_of_cons in Hin as [->|Hin].
    + destruct (normalize_marketcap_cons_Ok _ _ _ _ _ Hv Hok) as (s & Hs & H).
      exists s. split; [done|]. intros He. rewrite He in H.
      destruct H as (x & _ & Hx & _). by exists x.
    + destruct (marketcap r0) as [v0|] eqn:Hv0.
      * destruct (normalize_marketcap_cons_Ok _ _ _ _ _ Hv0 Hok) as (s0 & _ & H).
        destruct (endswith_any _ s0); [|by eauto].
        destruct H as (x0 & mcap' & _ & Hdf & _). by eauto.
      * rewrite normalize_marketcap_cons_nan in Hok by done. by eauto.
Qed.

Lemma assign_marketcap_elem (df : list (listing_row string))
    (mcap : list (mcap_row float)) (r' : listing_row Qc) :
  r' ∈ assign_marketcap df mcap →
  ∃ r, r ∈ df ∧ symbol r' = symbol r ∧ other r' = other r ∧
       marketcap r' = mjoin (series_get (symbol r) mcap).
Proof.
  unfold assign_marketcap. intros (r & -> & Hr)%list_elem_of_fmap. by exists r.
Qed.
End MarketCapRows.


(** C3: a market capitalisation whose last character is neither B nor M
    gets no value: alone in the table it leaves the normalized table empty,
    and in any table that normalizes, its identifier is not in the
    normalized table and its merged value is missing. *)
Theorem marketcap_other_suffix_excluded (floatify : string -> option float)
    (r : listing_row string) (s : string) (c : ascii) :
  marketcap r = Some (s ++ String c "") →
  c ≠ "B"%char → c ≠ "M"%char →
  normalize_marketcap floatify [r] = Ok [] ∧
  ∀ df mcap,
    NoDup (symbol <$> df) → r ∈ df →
    normalize_marketcap floatify df = Ok mcap →
    symbol r ∉ m_symbol <$> mcap ∧
    ∀ r', r' ∈ assign_marketcap df mcap → symbol r' = symbol r →
          marketcap r' = None.
Proof.
  intros Hr HB HM.
  assert (Hs : str_get (-1) (s ++ String c "") = Some (String c ""))
    by apply str_get_last.
  assert (He : endswith_any ["B"; "M"] (String c "") = false).
  { apply not_true_is_false. rewrite endswith_any_one. by intros [?|?]. }
  split.
  - by rewrite (normalize_marketcap_cons_skip floatify r _ _ [] Hr Hs He).
  - intros df mcap Hnd Hrdf Hok.
    assert (Hget : series_get (symbol r) mcap = None).
    { destruct (normalize_marketcap_entry floatify df mcap r _ Hnd Hrdf Hr Hok)
        as (s' & Hs' & H).
      rewrite Hs in Hs'. injection Hs' as <-. by rewrite He in H. }
    split; [by apply series_get_None|].
    intros r' (r0 & _ & Hsym & _ & Hm)%assign_marketcap_elem Heq.
    by rewrite Hm, <- Hsym, Heq, Hget.
Qed.

(** C4, as the code has it: when the text between the first character and a
    final B or M is not empty and the conversion cannot parse it,
    [pd.to_numeric] raises and the whole normalization raises with it; the
    only remainder that yields a missing value for its row alone is the
    empty one, which converts to NaN. *)
Theorem marketcap_unparseable_raises (floatify : string -> option float)
    (df : list (listing_row string)) (r : listing_row string)
    (s : string) (c : ascii) :
  r ∈ df →
  marketcap r = Some (s ++ String c "") →
  c = "B"%char ∨ c = "M"%char →
  (str_slice 1 (-1) (s ++ String c "") ≠ "" →
   floatify (str_slice 1 (-1) (s ++ String c "")) = None →
   raises (normalize_marketcap floatify df)) ∧
  (str_slice 1 (-1) (s ++ String c "") = "" →
   NoDup (symbol <$> df) →
   ∀ mcap, normalize_marketcap floatify df = Ok mcap →
           series_get (symbol r) mcap = Some None).
Proof.
  intros Hrdf Hr Hc.
  assert (Hs : str_get (-1) (s ++ String c "") = Some (String c ""))
    by apply str_get_last.
  assert (He : endswith_any ["B"; "M"] (String c "") = true)
    by by apply endswith_any_one.
  split.
  - intros Hne Hnone.
    destruct (normalize_marketcap floatify df) as [mcap|e] eqn:Hok; [|done].
    destruct (normalize_marketcap_row_Ok floatify df mcap r _ Hrdf Hr Hok)
      as (s' & Hs' & H).
    rewrite Hs in Hs'. injection Hs' as <-.
    destruct (H He) as (x & Hx). unfold to_numeric_str in Hx.
    apply String.eqb_neq in Hne. by rewrite Hne, Hnone in Hx.
  - intros Hempty Hnd mcap Hok.
    destruct (normalize_marketcap_entry floatify df mcap r _ Hnd Hrdf Hr Hok)
      as (s' & Hs' & H).
    rewrite Hs in Hs'. injection Hs' as <-. rewrite He in H.
    destruct H as (x & Hx & Hhd). rewrite Hempty in Hx.
    injection Hx as <-. unfold series_get. rewrite Hhd.
    destruct Hc as [->| ->]; reflexivity.
Qed.


(** ** Business days and the resampled table *)

Lemma rollback_mono (d1 d2 : Z) : d1 ≤ d2 → rollback d1 ≤ rollback d2.
Proof.
  unfold rollback, is_bday, weekday. intros Hle.
  destruct (_ <? 5) eqn:H1; destruct ((d2 + 3) `mod` 7 <? 5) eqn:H2;
    rewrite ?Z.ltb_lt, ?Z.ltb_ge in H1, H2; revert H1 H2;
    Z.div_mod_to_equations; lia.
Qed.



Lemma elem_of_bdate_range (lo hi b : Z) :
  b ∈ bdate_range lo hi ↔ is_bday b = true ∧ lo ≤ b ≤ hi.
Proof.
  unfold bdate_range. rewrite list_elem_of_filter, elem_of_seqZ.
  split; intros [? ?]; (split; [done|lia]).
Qed.


Lemma foldr_min_spec (x : Z) (l : list Z) :
  foldr Z.min x l ∈ x :: l ∧ ∀ y, y ∈ x :: l → foldr Z.min x l ≤ y.
Proof.
  induction l as [|a l [IHin IHle]]; simpl.
  - split; [by left|]. intros y ->%list_elem_of_singleton. done.
  - split.
    + destruct (Z.min_spec a (foldr Z.min x l)) as [[_ ->]|[_ ->]]; set_solver.
    + intros y Hy. assert (y = a ∨ y ∈ x :: l) as [->|Hy'] by set_solver; [lia|].
      specialize (IHle y Hy'). lia.
Qed.

Lemma foldr_max_spec (x : Z) (l : list Z) :
  foldr Z.max x l ∈ x :: l ∧ ∀ y, y ∈ x :: l → y ≤ foldr Z.max x l.
Proof.
  induction l as [|a l [IHin IHle]]; simpl.
  - split; [by left|]. intros y ->%list_elem_of_singleton. done.
  - split.
    + destruct (Z.max_spec a (foldr Z.max x l)) as [[_ ->]|[_ ->]]; set_solver.
    + intros y Hy. assert (y = a ∨ y ∈ x :: l) as [->|Hy'] by set_solver; [lia|].
      specialize (IHle y Hy'). lia.
Qed.

(** The index of the resampled table. *)
Lemma resample_B_mean_index (df : ts_frame) (b : Z) :
  b ∈ (ts_rows (resample_B_mean df)).*1 ↔
    is_bday b = true ∧
    ∃ r1 r2, r1 ∈ ts_rows df ∧ r2 ∈ ts_rows df ∧
             rollback r1.1 ≤ b ≤ rollback r2.1.
Proof.
  unfold resample_B_mean. simpl. destruct (ts_rows df) as [|r t] eqn:Hrows.
  - split; [by intros ?%elem_of_nil|]. by intros (_ & r1 & _ & ?%elem_of_nil & _).
  - rewrite <- list_fmap_compose.
    rewrite (list_fmap_ext _ id (bdate_range _ _)) by done.
    rewrite list_fmap_id, elem_of_bdate_range.
    destruct (foldr_min_spec r.1 (fst <$> t)) as [Hmin_in Hmin].
    destruct (foldr_max_spec r.1 (fst <$> t)) as [Hmax_in Hmax].
    change (r.1 :: (fst <$> t)) with (fst <$> r :: t) in *.
    split; intros [Hb H]; (split; [done|]).
    + apply list_elem_of_fmap in Hmin_in as (r1 & Hr1 & ?).
      apply list_elem_of_fmap in Hmax_in as (r2 & Hr2 & ?).
      exists r1, r2. rewrite <- Hr1, <- Hr2. done.
    + destruct H as (r1 & r2 & Hr1 & Hr2 & Hlo & Hhi).
      pose proof (rollback_mono _ _ (Hmin r1.1 (list_elem_of_fmap_2 fst _ _ Hr1))).
      pose proof (rollback_mono _ _ (Hmax r2.1 (list_elem_of_fmap_2 fst _ _ Hr2))).
      lia.
Qed.



Lemma resample_B_mean_values (df : ts_frame) (b : Z) (vals : list float) :
  (b, vals) ∈ ts_rows (resample_B_mean df) →
  vals = bin_mean (length (ts_columns df)) (ts_rows df) b.
Proof.
  unfold resample_B_mean. simpl. destruct (ts_rows df) as [|r t]; [by intros ?%elem_of_nil|].
  by intros (b' & [= -> ->] & _)%list_elem_of_fmap.
Qed.


(** ** The stored equities table *)

(** C2, as the code has it: when the script runs to its end, the table
    under [us_equities/stocks] is the table read from
    us_equities_meta_data.csv with its [ticker] column as index; the listing
    and its normalized column do not reach the store. *)
Theorem us_equities_stored_from_csv (floatify : string -> option float)
    (inp : inputs) (st : store) :
  (script floatify inp st).2 = Ok tt →
  ∃ t, set_index "ticker" (us_equities_meta_data_csv inp) = Ok t ∧
       store_get "us_equities/stocks" (script floatify inp st).1 = Some (LabelTable t).
Proof.
  unfold script, store_get, mbind, cmd_bind, store_put, lift. simpl.
  repeat case_match; simplify_eq/=; try done.
  intros _. eexists. split; [done|]. rewrite !put_insert.
  by repeat (rewrite lookup_insert_ne by done); rewrite lookup_insert_eq.
Qed.

(** ** Instances on the example inputs *)


(** The listing of three rows: 2.1e9, 9e8 and a missing value. *)
Example us_listing_three_rows :
  fmap (M := outcome)
    (fmap (M := list) (fun r => (symbol r, this <$> marketcap r)))
    (us_listing parse_decimal ex_listing3) =
  Ok [("AAA", Some (inject_Z 2100000000)); ("BBB", Some (inject_Z 900000000));
      ("CCC", None)].
Proof. vm_compute. reflexivity. Qed.

Lemma marketcap_other_suffix_excluded_witness :
  normalize_marketcap parse_decimal [listing "CCC" (Some "$50K")] = Ok [] ∧
  ∃ mcap, normalize_marketcap parse_decimal ex_listing3 = Ok mcap ∧
          "CCC" ∉ m_symbol <$> mcap.
Proof.
  destruct (marketcap_other_suffix_excluded parse_decimal
              (listing "CCC" (Some "$50K")) "$50" "K") as [H1 H2];
    [reflexivity|discriminate|discriminate|].
  split; [exact H1|]. eexists. split; [vm_compute; reflexivity|].
  eapply (H2 ex_listing3).
  - vm_compute. repeat constructor; set_solver.
  - repeat constructor.
  - vm_compute. reflexivity.
Defined.

Lemma marketcap_unparseable_raises_witness :
  raises (normalize_marketcap parse_decimal ex_listing_unparseable).
Proof.
  apply (proj1 (marketcap_unparseable_raises parse_decimal ex_listing_unparseable
                  (listing "BBB" (Some "$n/aB")) "$n/a" "B"
                  (list_elem_of_further _ _ _ (list_elem_of_here _ _))
                  eq_refl (or_introl eq_refl))).
  - discriminate.
  - vm_compute. reflexivity.
Defined.

(** One unparseable value makes the normalization raise: no row gets a
    value, the well-formed one included. *)
Lemma marketcap_unparseable_aborts :
  normalize_marketcap parse_decimal ex_listing_unparseable =
    Raise (ValueError "Unable to parse string") ∧
  us_listing parse_decimal ex_listing_unparseable =
    Raise (ValueError "Unable to parse string") ∧
  ¬ ∃ mcap, normalize_marketcap parse_decimal ex_listing_unparseable = Ok mcap.
Proof.
  split_and!; [vm_compute; reflexivity..|].
  intros [mcap H]. vm_compute in H. discriminate H.
Qed.


Lemma drop_duplicated_keeps_order_witness :
  ∃ i' j', (i' < j')%nat ∧
           ex_listing !! i' = Some (listing "BBB" (Some "$900M")) ∧
           ex_listing !! j' = Some (listing "DDD" None).
Proof.
  apply (proj2 (drop_duplicated_keeps_order ex_listing 1 3 _ _
                  (le_S _ _ (le_n _)) eq_refl eq_refl)).
Defined.

Lemma us_equities_stored_from_csv_witness :
  ∃ t, set_index "ticker" (us_equities_meta_data_csv ex_inputs) = Ok t ∧
       store_get "us_equities/stocks" (script parse_decimal ex_inputs ∅).1
         = Some (LabelTable t).
Proof.
  apply (us_equities_stored_from_csv parse_decimal ex_inputs ∅).
  vm_compute. reflexivity.
Defined.

(** The listing normalizes AAA to 2.1e9, and the table stored under
    [us_equities/stocks] holds for AAA what the CSV file holds. *)
Lemma us_equities_stored_not_normalized :
  ∃ df t r q,
    us_listing parse_decimal (nasdaq_listing ex_inputs) = Ok df ∧
    (script parse_decimal ex_inputs ∅).2 = Ok tt ∧
    store_get "us_equities/stocks" (script parse_decimal ex_inputs ∅).1
      = Some (LabelTable t) ∧
    r ∈ df ∧ symbol r = "AAA" ∧ marketcap r = Some q ∧
    frame_at (Str (symbol r)) "marketcap" t ≠ Some (Num q).
Proof.
  eexists _, _, {| symbol := "AAA"; marketcap := Some _; other := [] |}, _.
  split_and!.
  - vm_compute. reflexivity.
  - vm_compute. reflexivity.
  - vm_compute. reflexivity.
  - apply list_elem_of_here.
  - reflexivity.
  - reflexivity.
  - vm_compute. by intros [=].
Qed.


(** * Further properties of the script *)

(** ** The store after the script *)


Ltac store_lookup :=
  repeat (rewrite lookup_insert_ne by done); rewrite ?lookup_insert_eq.




(** When the exchange listing raises (the steps before it returning), the
    script raises the same exception; the four tables written before are in
    the store, and the two keys after it, [us_equities/stocks] and
    [fred/assets], hold what they held before the script. *)
Theorem script_listing_failure (floatify : string -> option float)
    (inp : inputs) (st : store) (close : ts_frame) (stocks : frame cell)
    (e : exn) :
  sp500_close (fred_sp500 inp) = Ok close →
  sp500_constituents (wikipedia_sp500 inp) = Ok stocks →
  us_listing floatify (nasdaq_listing inp) = Raise e →
  let st' := (script floatify inp st).1 in
  (script floatify inp st).2 = Raise e ∧
  store_get "quandl/wiki/prices" st' = Some (PriceTable (sort_index (wiki_prices_csv inp))) ∧
  store_get "quandl/wiki/stocks" st' = Some (FlatTable (wiki_stocks_csv inp)) ∧
  store_get "sp500/fred" st' = Some (DateTable close) ∧
  store_get "sp500/stocks" st' = Some (LabelTable stocks) ∧
  store_get "us_equities/stocks" st' = store_get "us_equities/stocks" st ∧
  store_get "fred/assets" st' = store_get "fred/assets" st.
Proof.
  intros H1 H2 H3.
  unfold script, store_get, mbind, cmd_bind, store_put, lift. simpl.
  rewrite H1, H2, H3. simpl. rewrite !put_insert.
  split_and!; by store_lookup.
Qed.


(** ** The price table, again *)

#[global] Instance key_le_antisym : AntiSymm (=) key_le.
Proof.
  intros [d1 t1] [d2 t2]. unfold key_le. simpl.
  intros [?|[-> H12]] [?|[? H21]]; try lia.
  f_equal. by apply (anti_symm String.le).
Qed.

#[global] Instance row_le_trans : Transitive row_le.
Proof. intros r1 r2 r3. unfold row_le. apply (transitivity (R := key_le)). Qed.

Lemma NoDup_fmap_eq {A B} (f : A → B) (l : list A) (x y : A) :
  NoDup (f <$> l) → x ∈ l → y ∈ l → f x = f y → x = y.
Proof.
  induction l as [|a l IH]; [by intros _ ?%elem_of_nil|].
  rewrite fmap_cons, NoDup_cons.
  intros [Ha Hnd] [->|Hx]%elem_of_cons [->|Hy]%elem_of_cons Heq; [done| | |by apply IH].
  - exfalso. apply Ha. rewrite Heq. by apply list_elem_of_fmap_2.
  - exfalso. apply Ha. rewrite <- Heq. by apply list_elem_of_fmap_2.
Qed.

(** The sorted index does not depend on the order of the rows in the file:
    two price tables with the same rows in any order give the same sequence
    of (date, ticker) keys, and the same sorted table when no key repeats. *)
Theorem sort_index_order_irrelevant (df1 df2 : frame (Z * string)) :
  rows df1 ≡ₚ rows df2 →
  (rows (sort_index df1)).*1 = (rows (sort_index df2)).*1 ∧
  (NoDup (rows df1).*1 → rows (sort_index df1) = rows (sort_index df2)).
Proof.
  intros Hperm.
  destruct (sort_index_sorted df1) as (_ & Hs1 & Hp1 & _).
  destruct (sort_index_sorted df2) as (_ & Hs2 & Hp2 & _).
  assert (Hp : rows (sort_index df1) ≡ₚ rows (sort_index df2)).
  { by rewrite Hp1, Hp2. }
  split.
  - apply (StronglySorted_unique key_le); [done..|]. by rewrite Hp.
  - intros Hnd. apply (StronglySorted_unique_strong row_le).
    + intros x1 x2 Hx1 Hx2 H12 H21.
      apply (NoDup_fmap_eq fst (rows df1)); [done|by rewrite <- Hp1| |].
      * rewrite Hperm, <- Hp2. done.
      * by apply (anti_symm key_le).
    + apply (StronglySorted_merge_sort row_le).
    + apply (StronglySorted_merge_sort row_le).
    + done.
Qed.

(** ** Duplicated labels, again *)

Lemma mask_rows_unseen {A} (seen : gset string) (df : list (listing_row A)) :
  NoDup (symbol <$> df) →
  (∀ r, r ∈ df → symbol r ∉ seen) →
  mask_rows df (negb <$> duplicated_from seen (symbol <$> df)) = df.
Proof.
  revert seen. induction df as [|r df IH]; intros seen Hnd Hseen; [done|].
  rewrite fmap_cons in Hnd. apply NoDup_cons in Hnd as [Hr Hnd].
  rewrite dedup_from_cons. rewrite decide_False by (apply Hseen; left).
  f_equal. apply IH; [done|]. intros r' Hr'.
  assert (symbol r' ≠ symbol r).
  { intros Heq. apply Hr. rewrite <- Heq. by apply list_elem_of_fmap_2. }
  assert (symbol r' ∉ seen) by (apply Hseen; by right).
  set_solver.
Qed.

(** Dropping the duplicated labels keeps the set of identifiers, leaves a
    table without repeated identifiers as it is, and so changes nothing when
    it is applied a second time. *)
Theorem drop_duplicated_idempotent {A} (df : list (listing_row A)) :
  (∀ k, k ∈ symbol <$> drop_duplicated df ↔ k ∈ symbol <$> df) ∧
  (NoDup (symbol <$> df) → drop_duplicated df = df) ∧
  drop_duplicated (drop_duplicated df) = drop_duplicated df.
Proof.
  assert (Hid : ∀ df' : list (listing_row A),
            NoDup (symbol <$> df') → drop_duplicated df' = df').
  { intros df' Hnd. apply mask_rows_unseen; [done|]. set_solver. }
  split_and!.
  - intros k.
    assert (Hfirst : filter (fun r => symbol r = k) (drop_duplicated df) =
                     option_list (head (filter (fun r => symbol r = k) df))).
    { unfold drop_duplicated, duplicated. rewrite dedup_from_filter.
      by rewrite decide_False by set_solver. }
    split.
    + intros (r & -> & Hr)%list_elem_of_fmap. apply list_elem_of_fmap_2.
      eapply elem_of_sublist; [done|]. apply dedup_from_sublist.
    + intros (r & -> & Hr)%list_elem_of_fmap.
      assert (Hin : r ∈ filter (fun r' => symbol r' = symbol r) df)
        by by apply list_elem_of_filter.
      destruct (filter (fun r' => symbol r' = symbol r) df) as [|r0 l] eqn:Hf;
        [by apply elem_of_nil in Hin|].
      simpl in Hfirst.
      assert (Hr0 : r0 ∈ filter (fun r' => symbol r' = symbol r) (drop_duplicated df))
        by (rewrite Hfirst; left).
      apply list_elem_of_filter in Hr0 as [<- Hr0]. by apply list_elem_of_fmap_2.
  - apply Hid.
  - apply Hid. apply dedup_from_NoDup.
Qed.

(** ** The normalized table, again *)

Lemma str_get_one (i : Z) (v s : string) :
  str_get i v = Some s → ∃ c, s = String c "".
Proof.
  unfold str_get. case_match; [|done]. case_match; [|done].
  intros [= <-]. by eexists.
Qed.

Lemma apply_factors_unit_inv (k : string) (x : float) (s : string) :
  ∃ y, apply_factors [{| m_symbol := k; m_marketcap := x; m_suffix := Some s |}] =
         [{| m_symbol := k; m_marketcap := y; m_suffix := Some s |}].
Proof.
  rewrite apply_factors_fmap. simpl. unfold scale_row. simpl.
  repeat (case_bool_decide; simpl); by eexists.
Qed.

Section MarketCapInvariants.
Variable floatify : string -> option float.

Lemma normalize_marketcap_some (df : list (listing_row string))
    (mcap : list (mcap_row float)) (k : string) :
  normalize_marketcap floatify df = Ok mcap →
  k ∈ m_symbol <$> mcap →
  ∃ r, r ∈ df ∧ symbol r = k ∧ is_Some (marketcap r).
Proof.
  revert mcap. induction df as [|r df IH]; intros mcap Hok Hk.
  - rewrite normalize_marketcap_nil in Hok. injection Hok as <-.
    by apply elem_of_nil in Hk.
  - destruct (marketcap r) as [v|] eqn:Hr.
    + destruct (normalize_marketcap_cons_Ok floatify r v df mcap Hr Hok) as (s & _ & H).
      destruct (endswith_any _ s).
      * destruct H as (x & mcap' & _ & Hdf & ->).
        destruct (apply_factors_unit_inv (symbol r) x s) as [y Hy].
        rewrite Hy in Hk. simpl in Hk. apply elem_of_cons in Hk as [->|Hk].
        -- exists r. split; [left|]. by rewrite Hr.
        -- destruct (IH _ Hdf Hk) as (r' & ? & ? & ?). exists r'. split; [by right|done].
      * destruct (IH _ H Hk) as (r' & ? & ? & ?). exists r'. split; [by right|done].
    + rewrite normalize_marketcap_cons_nan in Hok by done.
      destruct (IH _ Hok Hk) as (r' & ? & ? & ?). exists r'. split; [by right|done].
Qed.
End MarketCapInvariants.

(** When the normalization returns, the normalized table has exactly the
    rows of the listing whose value is present and ends in B or M, in the
    order of the listing, and every suffix in it is B or M. *)
Theorem normalize_marketcap_rows (floatify : string -> option float)
    (df : list (listing_row string)) (mcap : list (mcap_row float)) :
  normalize_marketcap floatify df = Ok mcap →
  m_symbol <$> mcap =
    fst <$> filter (fun kv => endswith_any ["B"; "M"] <$> str_get (-1) kv.2 = Some true)
              (select_marketcap df) ∧
  Forall (fun c => m_suffix c = Some "B" ∨ m_suffix c = Some "M") mcap.
Proof.
  revert mcap. induction df as [|r df IH]; intros mcap Hok.
  - rewrite normalize_marketcap_nil in Hok. injection Hok as <-. by split.
  - destruct (marketcap r) as [v|] eqn:Hr.
    + destruct (normalize_marketcap_cons_Ok floatify r v df mcap Hr Hok) as (s & Hs & H).
      assert (Hsel : select_marketcap (r :: df) = (symbol r, v) :: select_marketcap df).
      { unfold select_marketcap. simpl. by rewrite Hr. }
      rewrite Hsel, filter_cons. cbn [snd]. rewrite Hs.
      change (endswith_any ["B"; "M"] <$> Some s)
        with (Some (endswith_any ["B"; "M"] s)).
      destruct (endswith_any ["B"; "M"] s) eqn:He.
      * destruct H as (x & mcap' & _ & Hdf & ->).
        destruct (IH _ Hdf) as [IH1 IH2].
        destruct (apply_factors_unit_inv (symbol r) x s) as [y Hy].
        rewrite Hy. rewrite decide_True by done. split.
        -- cbn. by rewrite IH1.
        -- constructor; [|done]. cbn [m_suffix].
           destruct (str_get_one _ _ _ Hs) as [c ->].
           apply endswith_any_one in He as [->| ->]; [by left|by right].
      * rewrite decide_False by done. by apply IH.
    + rewrite normalize_marketcap_cons_nan in Hok by done.
      assert (Hsel : select_marketcap (r :: df) = select_marketcap df).
      { unfold select_marketcap. simpl. by rewrite Hr. }
      rewrite Hsel. by apply IH.
Qed.

(** A row whose market capitalisation is missing is dropped before the
    suffixes are read: it never makes the normalization raise, it is not in
    the normalized table, and its value is still missing after the
    assignment. *)
Theorem marketcap_missing_stays_missing (floatify : string -> option float)
    (df : list (listing_row string)) (r : listing_row string) :
  marketcap r = None →
  normalize_marketcap floatify (r :: df) = normalize_marketcap floatify df ∧
  ∀ mcap,
    NoDup (symbol <$> df) → r ∈ df →
    normalize_marketcap floatify df = Ok mcap →
    symbol r ∉ m_symbol <$> mcap ∧
    ∀ r', r' ∈ assign_marketcap df mcap → symbol r' = symbol r →
          marketcap r' = None.
Proof.
  intros Hr. split; [by apply normalize_marketcap_cons_nan|].
  intros mcap Hnd Hin Hok.
  assert (Hnot : symbol r ∉ m_symbol <$> mcap).
  { intros Hk.
    destruct (normalize_marketcap_some floatify df mcap _ Hok Hk) as (r0 & Hr0 & Heq & Hsome).
    assert (r0 = r) as -> by by apply (NoDup_fmap_eq symbol df).
    rewrite Hr in Hsome. by destruct Hsome. }
  split; [done|].
  intros r' (r0 & _ & Hsym & _ & Hm)%assign_marketcap_elem Heq.
  apply series_get_None in Hnot. by rewrite Hm, <- Hsym, Heq, Hnot.
Qed.

(** An empty string in the market capitalisation column has no last
    character: its suffix is NaN, the mask of line 206 has a NaN in it, and
    the normalization raises. *)
Theorem marketcap_empty_string_raises (floatify : string -> option float)
    (df : list (listing_row string)) (r : listing_row string) :
  r ∈ df → marketcap r = Some "" →
  raises (normalize_marketcap floatify df).
Proof.
  intros Hin Hr.
  destruct (normalize_marketcap floatify df) as [mcap|e] eqn:Hok; [|done].
  destruct (normalize_marketcap_row_Ok floatify df mcap r _ Hin Hr Hok)
    as (s & Hs & _).
  discriminate Hs.
Qed.

(** When lines 179-218 return, the table has one row for every identifier
    of the listing (the first one), no identifier twice, the identifiers
    and other columns of the deduplicated listing, and at least two numeric
    market capitalisations: with fewer, the summary of line 218 raises. *)
Theorem us_listing_result (floatify : string -> option float)
    (df : list (listing_row string)) (out : list (listing_row Qc)) :
  us_listing floatify df = Ok out →
  (∃ mcap, normalize_marketcap floatify (drop_duplicated df) = Ok mcap ∧
           out = assign_marketcap (drop_duplicated df) mcap) ∧
  NoDup (symbol <$> out) ∧
  symbol <$> out = symbol <$> drop_duplicated df ∧
  other <$> out = other <$> drop_duplicated df ∧
  (2 ≤ length (omap marketcap out))%nat.
Proof.
  unfold us_listing, mbind, outcome_bind.
  destruct (normalize_marketcap floatify (drop_duplicated df)) as [mcap|e]; [|done].
  unfold describe_marketcap.
  destruct (length (omap marketcap (assign_marketcap (drop_duplicated df) mcap)) <? 2)%nat
    eqn:Hlen; [done|].
  intros [= <-]. apply Nat.ltb_ge in Hlen.
  assert (Hsym : symbol <$> assign_marketcap (drop_duplicated df) mcap =
                 symbol <$> drop_duplicated df).
  { unfold assign_marketcap. rewrite <- list_fmap_compose. by apply list_fmap_ext. }
  split_and!.
  - by exists mcap.
  - rewrite Hsym. apply dedup_from_NoDup.
  - done.
  - unfold assign_marketcap. rewrite <- list_fmap_compose. by apply list_fmap_ext.
  - done.
Qed.

(** ** Tables with named columns, again *)

Lemma column_position_cons (c x : string) (cols : list string) :
  column_position c (x :: cols) =
    if decide (x = c) then Some 0%nat else S <$> column_position c cols.
Proof.
  unfold column_position. simpl. case_decide; [done|].
  by destruct (list_find _ cols) as [[? ?]|].
Qed.


Lemma column_position_delete (c col : string) (cols : list string) (i j : nat) :
  column_position c cols = Some i → col ≠ c →
  column_position col cols = Some j →
  column_position col (delete i cols) =
    Some (if decide (j < i)%nat then j else Nat.pred j) ∧ j ≠ i.
Proof.
  revert i j. induction cols as [|x cols IH]; intros i j; [done|].
  rewrite !column_position_cons. intros Hi Hne Hj.
  destruct (decide (x = c)) as [->|Hxc].
  - injection Hi as <-. rewrite decide_False in Hj by done.
    apply fmap_Some in Hj as (j' & Hj' & ->). simpl. by split.
  - apply fmap_Some in Hi as (i' & Hi' & ->). simpl.
    rewrite column_position_cons.
    destruct (decide (x = col)) as [->|Hxcol].
    + injection Hj as <-. split; [|done]. by rewrite decide_True by lia.
    + apply fmap_Some in Hj as (j' & Hj' & ->).
      destruct (IH i' j' Hi' Hne Hj') as [-> Hneq]. simpl.
      split; [|lia]. f_equal.
      destruct (decide (j' < i')%nat), (decide (S j' < S i')%nat); lia.
Qed.

Lemma head_filter_fmap {A B} (f : A → B) (P : B → Prop) `{!∀ y, Decision (P y)}
    (l : list A) :
  head (filter P (f <$> l)) = f <$> head (filter (P ∘ f) l).
Proof.
  induction l as [|x l IH]; [done|].
  rewrite fmap_cons, !filter_cons. simpl. by case_decide.
Qed.


(** After [set_index], the row found under a label holds, in every other
    column, the cell the first row of the original table with that label in
    the index column holds in it; the table keeps its number of rows. *)
Theorem set_index_frame_at (c col : string) (df : flat_frame) (t : frame cell)
    (i j : nat) (label : cell) (r : list cell) :
  set_index c df = Ok t →
  column_position c (f_columns df) = Some i →
  column_position col (f_columns df) = Some j →
  col ≠ c →
  head (filter (fun r => default NaN (r !! i) = label) (f_rows df)) = Some r →
  frame_at label col t = r !! j ∧
  length (rows t) = length (f_rows df).
Proof.
  intros Ht Hi Hj Hne Hr. unfold set_index in Ht. rewrite Hi in Ht.
  injection Ht as <-. unfold frame_at. simpl.
  rewrite (head_filter_fmap _ (fun r' : cell * list cell => r'.1 = label)).
  unfold compose. simpl. rewrite Hr. simpl.
  destruct (column_position_delete c col _ i j Hi Hne Hj) as [-> Hji]. simpl.
  split; [|by rewrite length_fmap].
  case_decide.
  - by apply list_lookup_delete_lt.
  - rewrite list_lookup_delete_ge by lia. f_equal. lia.
Qed.

(** The constituents table: a scraped table of nine columns gives the seven
    named columns, indexed by the cell of its first column and without its
    third column; a table of any other width raises. *)
Theorem sp500_constituents_schema (df : flat_frame) :
  (length (f_columns df) = 9%nat →
   sp500_constituents df =
     Ok {| columns := ["name"; "gics_sector"; "gics_sub_industry"; "location";
                       "first_added"; "cik"; "founded"];
           rows := (fun r => (default NaN (r !! 0%nat), delete 0%nat (delete 2%nat r)))
                     <$> f_rows df |}) ∧
  (length (f_columns df) ≠ 9%nat →
   sp500_constituents df = Raise (ValueError "Length mismatch")).
Proof.
  unfold sp500_constituents, set_columns. split; intros Hlen.
  - rewrite Hlen. simpl. unfold set_index. simpl. f_equal. f_equal.
    rewrite <- list_fmap_compose. apply list_fmap_ext. intros k r _. simpl.
    by destruct r as [|? [|? [|? ?]]].
  - apply Nat.eqb_neq in Hlen. simpl length. rewrite Nat.eqb_sym, Hlen. done.
Qed.

(** ** The resampled table, again *)

Lemma rollback_is_bday (d : Z) : is_bday (rollback d) = true.
Proof.
  unfold rollback, is_bday. destruct (weekday d <? 5) eqn:Hw; [done|].
  apply Z.ltb_ge in Hw. apply Z.ltb_lt. revert Hw. unfold weekday.
  Z.div_mod_to_equations. lia.
Qed.

Lemma rollback_bday (d : Z) : is_bday d = true → rollback d = d.
Proof. unfold rollback. by intros ->. Qed.

Lemma nanmean_one (v : float) : nanmean [v] = v.
Proof.
  destruct v as [x|]; [|done]. unfold nanmean, qsum. simpl. f_equal.
  rewrite Qcplus_0_r. unfold Qcdiv.
  replace (/ Q2Qc (inject_Z 1))%Qc with (Q2Qc 1) by (by apply Qc_is_canon).
  apply Qcmult_1_r.
Qed.

Lemma nanmean_present (vs : list float) (x : Qc) :
  Some x ∈ vs → is_Some (nanmean vs).
Proof.
  intros Hx. unfold nanmean.
  assert (Hin : x ∈ omap id vs) by (apply list_elem_of_omap; by exists (Some x)).
  destruct (omap id vs); [by apply elem_of_nil in Hin|]. by eexists.
Qed.

Lemma filter_none {A} (P : A → Prop) `{!∀ y, Decision (P y)} (l : list A) :
  (∀ y, y ∈ l → ¬ P y) → filter P l = [].
Proof.
  induction l as [|a l IH]; [done|]. intros Hall.
  rewrite filter_cons, decide_False by (apply Hall; left).
  apply IH. intros y Hy. apply Hall. by right.
Qed.

Lemma filter_ext_elem {A} (P Q : A → Prop) `{!∀ y, Decision (P y)}
    `{!∀ y, Decision (Q y)} (l : list A) :
  (∀ y, y ∈ l → P y ↔ Q y) → filter P l = filter Q l.
Proof.
  induction l as [|a l IH]; [done|]. intros Hall.
  rewrite !filter_cons, IH by (intros y Hy; apply Hall; by right).
  destruct (decide (P a)) as [Hp|Hp].
  - by rewrite decide_True by (apply Hall; [left|done]).
  - rewrite decide_False; [done|]. intros Hq. apply Hp. apply Hall; [left|done].
Qed.

Lemma filter_same_key {A B} `{!EqDecision B} (f : A → B) (l : list A) (x : A) :
  NoDup (f <$> l) → x ∈ l → filter (fun y => f y = f x) l = [x].
Proof.
  induction l as [|a l IH]; [by intros _ ?%elem_of_nil|].
  rewrite fmap_cons, NoDup_cons, filter_cons. intros [Ha Hnd] Hx.
  destruct (decide (f a = f x)) as [Heq|Hne].
  - assert (x = a) as ->.
    { apply elem_of_cons in Hx as [->|Hx]; [done|].
      exfalso. apply Ha. rewrite Heq. by apply list_elem_of_fmap_2. }
    f_equal. apply filter_none. intros y Hy Hya. apply Ha. rewrite <- Hya.
    by apply list_elem_of_fmap_2.
  - apply elem_of_cons in Hx as [->|Hx]; [done|]. by apply IH.
Qed.

Lemma lookup_all_columns (l : list float) (n : nat) :
  length l = n → (fun j => mjoin (l !! j)) <$> seq 0 n = l.
Proof.
  unfold float in *.
  intros <-. apply list_eq. intros i. rewrite list_lookup_fmap.
  destruct (decide (i < length l)%nat) as [Hi|Hi].
  - rewrite lookup_seq_lt by done. simpl.
    pose proof (lookup_lt_is_Some_2 l i Hi) as Hv.
    destruct (l !! i) as [v|]; [done|by destruct Hv].
  - rewrite lookup_seq_ge by lia. by rewrite lookup_ge_None_2 by lia.
Qed.

(** A table that has one row for every business day from [lo] to [hi] is
    its own resampling. *)
Lemma resample_B_mean_fixed (df : ts_frame) (lo hi : Z) :
  is_bday lo = true → is_bday hi = true → lo ≤ hi →
  (ts_rows df).*1 = bdate_range lo hi →
  Forall (fun r => length r.2 = length (ts_columns df)) (ts_rows df) →
  resample_B_mean df = df.
Proof.
  intros Hlo Hhi Hle Hdates Hwidth. destruct df as [cols rws]. simpl in *.
  unfold resample_B_mean. simpl. f_equal.
  assert (Hlo_in : lo ∈ rws.*1) by (rewrite Hdates; by apply elem_of_bdate_range).
  assert (Hhi_in : hi ∈ rws.*1) by (rewrite Hdates; by apply elem_of_bdate_range).
  destruct rws as [|r t]; [by apply elem_of_nil in Hlo_in|].
  destruct (foldr_min_spec r.1 (fst <$> t)) as [Hmin_in Hmin].
  destruct (foldr_max_spec r.1 (fst <$> t)) as [Hmax_in Hmax].
  change (r.1 :: (fst <$> t)) with (fst <$> r :: t) in *.
  assert (foldr Z.min r.1 (fst <$> t) = lo) as ->.
  { rewrite Hdates in Hmin_in. apply elem_of_bdate_range in Hmin_in.
    specialize (Hmin lo Hlo_in). lia. }
  assert (foldr Z.max r.1 (fst <$> t) = hi) as ->.
  { rewrite Hdates in Hmax_in. apply elem_of_bdate_range in Hmax_in.
    specialize (Hmax hi Hhi_in). lia. }
  rewrite !rollback_bday by done. rewrite <- Hdates, <- list_fmap_compose.
  transitivity (id <$> (r :: t)); [|apply list_fmap_id].
  apply list_fmap_ext. intros i x Hx. simpl.
  assert (Hxin : x ∈ r :: t) by by eapply list_elem_of_lookup_2.
  assert (Hbin : bin_rows x.1 (r :: t) = [x]).
  { unfold bin_rows.
    rewrite (filter_ext_elem _ (fun y : Z * list float => y.1 = x.1)).
    - apply (filter_same_key fst); [|done]. rewrite Hdates.
      apply NoDup_filter, NoDup_seqZ.
    - intros y Hy.
      assert (Hbd : is_bday y.1 = true).
      { apply (list_elem_of_fmap_2 fst) in Hy. rewrite Hdates in Hy.
        by apply elem_of_bdate_range in Hy as [? _]. }
      by rewrite (rollback_bday _ Hbd). }
  unfold bin_mean. rewrite Hbin.
  rewrite Forall_forall in Hwidth. specialize (Hwidth x Hxin).
  assert (Hmean : (fun j => nanmean (column_at j [x])) <$> seq 0 (length cols)
                  = x.2).
  { etrans; [|by apply (lookup_all_columns x.2 (length cols))].
    apply list_fmap_ext. intros k j _. unfold column_at. simpl.
    apply nanmean_one. }
  rewrite Hmean. by destruct x.
Qed.

(** Resampling leaves a table that is already business-daily as it is: with
    one row for every business day from [lo] to [hi], in order, each row as
    wide as the table, the result is the table itself. *)
Theorem resample_B_mean_regular (df : ts_frame) (lo hi : Z) :
  is_bday lo = true → is_bday hi = true → lo ≤ hi →
  (ts_rows df).*1 = bdate_range lo hi →
  Forall (fun r => length r.2 = length (ts_columns df)) (ts_rows df) →
  resample_B_mean df = df.
Proof. apply resample_B_mean_fixed. Qed.

(** Resampling twice is resampling once. *)
Theorem resample_B_mean_idempotent (df : ts_frame) :
  resample_B_mean (resample_B_mean df) = resample_B_mean df.
Proof.
  destruct (ts_rows df) as [|r t] eqn:Hrows.
  { unfold resample_B_mean. simpl. by rewrite Hrows. }
  destruct (foldr_min_spec r.1 (fst <$> t)) as [Hmin_in Hmin].
  destruct (foldr_max_spec r.1 (fst <$> t)) as [Hmax_in Hmax].
  apply (resample_B_mean_fixed _ (rollback (foldr Z.min r.1 (fst <$> t)))
           (rollback (foldr Z.max r.1 (fst <$> t)))).
  - apply rollback_is_bday.
  - apply rollback_is_bday.
  - apply rollback_mono.
    pose proof (Hmin r.1 (list_elem_of_here _ _)).
    pose proof (Hmax r.1 (list_elem_of_here _ _)). lia.
  - unfold resample_B_mean. simpl. rewrite Hrows.
    rewrite <- list_fmap_compose.
    rewrite (list_fmap_ext _ id (bdate_range _ _)) by done.
    apply list_fmap_id.
  - unfold resample_B_mean. simpl. rewrite Hrows.
    apply Forall_fmap, Forall_forall. intros b _. simpl.
    unfold bin_mean. by rewrite length_fmap, length_seq.
Qed.

(** A value of the input is never lost: for a row that holds a value in a
    column, the result has a row for the business day of that row (the
    Friday before, for a weekend date) whose cell in that column is not
    missing. *)
Theorem fred_assets_keeps_values (df : ts_frame) (r : Z * list float)
    (j : nat) (x : Qc) :
  r ∈ ts_rows df →
  r.2 !! j = Some (Some x) →
  (j < length (ts_columns df))%nat →
  ∃ vals y, (rollback r.1, vals) ∈ ts_rows (fred_assets df) ∧
            vals !! j = Some (Some y).
Proof.
  intros Hr Hx Hj.
  set (kept := filter (fun r => Exists is_Some r.2) (ts_rows df)).
  assert (Hkept : r ∈ kept).
  { apply list_elem_of_filter. split; [|done].
    apply Exists_exists. exists (Some x). split; [|done].
    by eapply list_elem_of_lookup_2. }
  assert (Hb : rollback r.1 ∈ (ts_rows (fred_assets df)).*1).
  { apply resample_B_mean_index. split; [apply rollback_is_bday|].
    exists r, r. simpl. fold kept. split_and!; [done|done|lia|lia]. }
  apply list_elem_of_fmap in Hb as ([b vals] & Hbeq & Hin). simpl in Hbeq. subst b.
  exists vals. pose proof (resample_B_mean_values _ _ _ Hin) as Hvals.
  simpl in Hvals. rewrite length_fmap in Hvals. fold kept in Hvals.
  assert (Hsome : is_Some (nanmean (column_at j (bin_rows (rollback r.1) kept)))).
  { apply (nanmean_present _ x). unfold column_at.
    apply list_elem_of_fmap. exists r. split; [by rewrite Hx|].
    apply list_elem_of_filter. by split. }
  destruct Hsome as [y Hy]. exists y. split; [done|].
  rewrite Hvals. unfold bin_mean.
  rewrite list_lookup_fmap, lookup_seq_lt by done. simpl. by rewrite Hy.
Qed.

(** With no value at all (no row, or only rows of missing values), nothing
    is left after [dropna] and the resampled table is empty. *)
Theorem fred_assets_no_values (df : ts_frame) :
  Forall (fun r => Forall (fun v => v = None) r.2) (ts_rows df) →
  ts_rows (fred_assets df) = [].
Proof.
  intros Hall. unfold fred_assets, resample_B_mean, dropna_all. simpl.
  rewrite (filter_none _ (ts_rows df)); [done|].
  rewrite Forall_forall in Hall. intros r Hr (v & Hv & [x ->])%Exists_exists.
  specialize (Hall r Hr). rewrite Forall_forall in Hall.
  by specialize (Hall _ Hv).
Qed.


(** ** Further instances on the example inputs *)



Lemma script_listing_failure_witness :
  (script parse_decimal ex_inputs_unparseable ex_store).2 =
    Raise (ValueError "Unable to parse string") ∧
  store_get "us_equities/stocks" (script parse_decimal ex_inputs_unparseable ex_store).1 =
    None.
Proof.
  edestruct (script_listing_failure parse_decimal ex_inputs_unparseable ex_store)
    as (Hret & _ & _ & _ & _ & Hus & _);
    [vm_compute; reflexivity..|].
  split; [exact Hret|]. rewrite Hus. reflexivity.
Defined.


Lemma sort_index_order_irrelevant_witness :
  (rows (sort_index (wiki_prices_csv ex_inputs))).*1 =
    (rows (sort_index ex_prices_swapped)).*1.
Proof.
  apply (sort_index_order_irrelevant (wiki_prices_csv ex_inputs) ex_prices_swapped).
  apply perm_swap.
Defined.

Lemma normalize_marketcap_rows_witness :
  ∃ mcap, normalize_marketcap parse_decimal ex_listing3 = Ok mcap ∧
          m_symbol <$> mcap = ["AAA"; "BBB"].
Proof.
  destruct (normalize_marketcap parse_decimal ex_listing3) as [mcap|e] eqn:Hn;
    [|vm_compute in Hn; discriminate Hn].
  exists mcap. split; [reflexivity|].
  rewrite (proj1 (normalize_marketcap_rows parse_decimal ex_listing3 mcap Hn)).
  reflexivity.
Defined.

Lemma marketcap_missing_stays_missing_witness :
  ∃ mcap, normalize_marketcap parse_decimal ex_listing_missing = Ok mcap ∧
          "DDD" ∉ m_symbol <$> mcap.
Proof.
  destruct (normalize_marketcap parse_decimal ex_listing_missing) as [mcap|e] eqn:Hn;
    [|vm_compute in Hn; discriminate Hn].
  exists mcap. split; [reflexivity|].
  apply (proj2 (marketcap_missing_stays_missing parse_decimal ex_listing_missing
                  (listing "DDD" None) eq_refl) mcap); [|by repeat constructor|done].
  vm_compute. repeat constructor; set_solver.
Defined.

Lemma marketcap_empty_string_raises_witness :
  raises (normalize_marketcap parse_decimal ex_listing_empty).
Proof.
  apply (marketcap_empty_string_raises parse_decimal ex_listing_empty
           (listing "EEE" (Some ""))); [|reflexivity].
  apply list_elem_of_further, list_elem_of_here.
Defined.

Lemma us_listing_result_witness :
  ∃ out, us_listing parse_decimal ex_listing = Ok out ∧
         symbol <$> out = ["AAA"; "BBB"; "CCC"; "DDD"] ∧
         NoDup (symbol <$> out).
Proof.
  destruct (us_listing parse_decimal ex_listing) as [out|e] eqn:Hu;
    [|vm_compute in Hu; discriminate Hu].
  destruct (us_listing_result parse_decimal ex_listing out Hu)
    as (_ & Hnd & Hsym & _).
  exists out. split; [reflexivity|]. split; [|exact Hnd].
  rewrite Hsym. vm_compute. reflexivity.
Defined.

Lemma set_index_frame_at_witness :
  ∃ t, set_index "ticker" ex_meta = Ok t ∧
       frame_at (Str "AAA") "sector" t = Some (Str "Tech").
Proof.
  eexists. split; [reflexivity|].
  apply (set_index_frame_at "ticker" "sector" ex_meta _ 1 2 (Str "AAA")
           [Str "Alpha"; Str "AAA"; Str "Tech"]);
    [reflexivity|reflexivity|reflexivity|discriminate|reflexivity].
Defined.

Lemma resample_B_mean_regular_witness :
  resample_B_mean ex_fred_daily = ex_fred_daily.
Proof.
  apply (resample_B_mean_regular ex_fred_daily 4 5);
    [reflexivity|reflexivity|lia|reflexivity|by repeat constructor].
Defined.

Lemma fred_assets_keeps_values_witness :
  ∃ vals y, (6, vals) ∈ ts_rows (fred_assets ex_fred) ∧
            vals !! 0%nat = Some (Some y).
Proof.
  apply (fred_assets_keeps_values ex_fred (6, [Some (Q2Qc (inject_Z 3)); None])
           0 (Q2Qc (inject_Z 3))).
  - apply list_elem_of_further, list_elem_of_further, list_elem_of_here.
  - reflexivity.
  - simpl. lia.
Defined.

Lemma fred_assets_no_values_witness :
  ts_rows (fred_assets ex_fred_no_values) = [].
Proof. apply fred_assets_no_values. by repeat constructor. Defined.
